(** * Interview-prep demo components: tab group and user card

    A shallow embedding of the two Angular demo widgets of the repository:

    - [Tabs]: [TabComponent] (tab.component.ts) and [TabGroupComponent]
      (tab-group.component.ts), the content-projection demo;
    - [UserCard]: [UserComponent] (user.component.ts), the change-detection
      demo, with its timer-driven fetch methods.

    JavaScript objects live in a store indexed by references, so that
    mutation through one reference is seen through every alias of it.
    [console.log] calls and [$event.preventDefault()] act on the console and
    on the DOM event only and are left out of the component state. *)

From stdpp Require Import base decidable option list gmap strings fin_maps.

Local Open Scope Z_scope.

(** Object references. *)
Abbreviation loc := positive.

(** [arr[index]] on a JavaScript array holding object references: the element
    when [index] is an integer in range, [undefined] ([None]) otherwise. *)
Definition array_get {A : Type} (arr : list A) (index : Z) : option A :=
  if decide (0 ≤ index) then arr !! Z.to_nat index else None.

(** The test of [if (v)] when [v] is an object reference or [undefined]:
    references are truthy, [undefined] is falsy. *)
Definition truthy {A : Type} (v : option A) : bool :=
  match v with
  | Some _ => true
  | None => false
  end.

(** How a method call ends: it returns, here with the store it leaves, or
    it throws. *)
Inductive Outcome (A : Type) : Type :=
  | Returned (a : A)
  | Thrown (e : string).

Arguments Returned {A} a.
Arguments Thrown {A} e.

#[global] Instance Outcome_ret : MRet Outcome := λ A a, Returned a.

#[global] Instance Outcome_bind : MBind Outcome := λ A B f o,
  match o with
  | Returned a => f a
  | Thrown e => Thrown e
  end.

(* ================================================================= *)
(** ** The tab widgets *)

Module Tabs.

(** [export class TabComponent { @Input() title = ''; active = false; ... }] *)
Record TabComponent := mkTab { title : string; active : bool }.

(** [new TabComponent()] with its [title] input bound by the template. *)
Definition newTab (t : string) : TabComponent :=
  {| title := t; active := false |}.

(** [activate() { this.active = true; }] *)
Definition activate (tab : TabComponent) : TabComponent :=
  {| title := title tab; active := true |}.

(** [deactivate() { this.active = false; }] *)
Definition deactivate (tab : TabComponent) : TabComponent :=
  {| title := title tab; active := false |}.

(** [@ContentChildren(TabComponent) tabs!: QueryList<TabComponent>]: the
    query list holds references to the projected children, in document
    order. *)
Record TabGroupComponent := mkGroup { tabs : list loc }.

(** The store of tab objects. *)
Abbreviation Store := (gmap positive TabComponent).

(** Calling a method on the object behind a reference updates the store. *)
Definition call (m : TabComponent → TabComponent) (l : loc) (σ : Store) : Store :=
  alter m l σ.

(** [receiver.m()] where [receiver] may be [undefined]: a method call on
    [undefined] throws a [TypeError]. *)
Definition invoke (m : TabComponent → TabComponent) (receiver : option loc)
    (σ : Store) : Outcome Store :=
  match receiver with
  | Some l => Returned (call m l σ)
  | None => Thrown "TypeError"
  end.

(** [this.tabs.forEach((tab) => tab.m())] *)
Definition forEach (m : TabComponent → TabComponent) (q : list loc) (σ : Store) : Store :=
  foldl (λ σ' l, call m l σ') σ q.

(** [this.tabs.toArray()]: a fresh array of the same references. *)
Definition toArray (q : list loc) : list loc := q.

(** [this.tabs.first]: [undefined] on an empty query list. *)
Definition first (q : list loc) : option loc := head q.

(** [[
  ngAfterContentInit() {
    if (this.tabs.length > 0) {
      this.tabs.first.activate();
    }
  }
]] *)
Definition ngAfterContentInit (this : TabGroupComponent) (σ : Store) : Outcome Store :=
  if decide (0 < Z.of_nat (length (tabs this))) then
    invoke activate (first (tabs this)) σ
  else Returned σ.

(** [[
  selectTab(index: number) {
    this.tabs.forEach((tab) => tab.deactivate());
    const tabsArray = this.tabs.toArray();
    if (tabsArray[index]) {
      tabsArray[index].activate();
    }
  }
]] *)
Definition selectTab (this : TabGroupComponent) (index : Z) (σ : Store) : Outcome Store :=
  let σ1 := forEach deactivate (tabs this) σ in
  let tabsArray := toArray (tabs this) in
  if truthy (array_get tabsArray index) then
    invoke activate (array_get tabsArray index) σ1
  else Returned σ1.

(** A run of user selections, oldest first; a throwing call ends the run. *)
Fixpoint selectTabs (this : TabGroupComponent) (indices : list Z) (σ : Store)
    : Outcome Store :=
  match indices with
  | [] => Returned σ
  | index :: rest => selectTab this index σ ≫= selectTabs this rest
  end.

(** The life of a tab group: content initialisation, then selections. *)
Definition session (this : TabGroupComponent) (indices : list Z) (σ : Store)
    : Outcome Store :=
  ngAfterContentInit this σ ≫= selectTabs this indices.

(** The [active] flag read through a reference ([tab.active] in the
    template). *)
Definition is_active (σ : Store) (l : loc) : bool :=
  match σ !! l with
  | Some tab => active tab
  | None => false
  end.

(** Number of child tabs of the group whose [active] flag is set. *)
Fixpoint count_active (σ : Store) (q : list loc) : nat :=
  match q with
  | [] => 0%nat
  | l :: q' => ((if is_active σ l then 1 else 0) + count_active σ q')%nat
  end.

(** The children as Angular hands them over when the content is
    initialised: distinct live objects, each built by [newTab]. *)
Definition fresh_children (this : TabGroupComponent) (σ : Store) : Prop :=
  NoDup (tabs this) ∧
  Forall (λ l, ∃ tab, σ !! l = Some tab ∧ active tab = false) (tabs this).

(** Every child of the group is a live object of the store. *)
Definition live (this : TabGroupComponent) (σ : Store) : Prop :=
  ∀ l, l ∈ tabs this → is_Some (σ !! l).

Definition in_range (this : TabGroupComponent) (index : Z) : Prop :=
  0 ≤ index < Z.of_nat (length (tabs this)).

(** A group of two tabs, as a page would declare it, and one with no tab
    at all. *)
Definition two_tabs : TabGroupComponent := {| tabs := [1; 2]%positive |}.

Definition two_tabs_store : Store :=
  {[ 1%positive := newTab "Profile"; 2%positive := newTab "Settings" ]}.

Definition two_tabs_first : Store :=
  {[ 1%positive := {| title := "Profile"; active := true |};
     2%positive := {| title := "Settings"; active := false |} ]}.

Definition two_tabs_second : Store :=
  {[ 1%positive := {| title := "Profile"; active := false |};
     2%positive := {| title := "Settings"; active := true |} ]}.

Definition two_tabs_none : Store :=
  {[ 1%positive := {| title := "Profile"; active := false |};
     2%positive := {| title := "Settings"; active := false |} ]}.

Definition no_tabs : TabGroupComponent := {| tabs := [] |}.

(** *** The templates

    The header row of the group's template draws one button per child, in
    order, whose click handler passes the position of the child:
[[
        <button
          *ngFor="let tab of tabs; let i = index"
          class="tab-header"
          [class.active]="tab.active"
          (click)="selectTab(i)"
        >
          {{ tab.title }}
        </button>
]] *)
Record HeaderButton := mkButton {
  label : string;
  class_active : bool;
  click : Z
}.

(** [tab.title] read through a reference. *)
Definition title_of (σ : Store) (l : loc) : string :=
  match σ !! l with
  | Some tab => title tab
  | None => ""
  end.

Definition headers (this : TabGroupComponent) (σ : Store) : list HeaderButton :=
  imap (λ i l, {| label := title_of σ l;
                  class_active := is_active σ l;
                  click := Z.of_nat i |}) (tabs this).

(** The user clicks the [k]-th button of the header row, which runs its
    handler; where the row has no such button there is nothing to click. *)
Definition click_header (this : TabGroupComponent) (k : nat) (σ : Store)
    : Outcome Store :=
  match headers this σ !! k with
  | Some b => selectTab this (click b) σ
  | None => Returned σ
  end.

(** A run of clicks on the header row, oldest first. *)
Fixpoint clicks (this : TabGroupComponent) (ks : list nat) (σ : Store)
    : Outcome Store :=
  match ks with
  | [] => Returned σ
  | k :: rest => click_header this k σ ≫= clicks this rest
  end.

(** The template of a tab draws its content under [*ngIf="active"]:
    [shown σ q] lists the children of [q] whose content is drawn. *)
Definition shown (σ : Store) (q : list loc) : list loc :=
  List.filter (is_active σ) q.

End Tabs.

(* ================================================================= *)
(** ** The user card *)

Module UserCard.

(** [interface User { name: string }].  A user is a plain object, kept as
    the map of its own enumerable properties so that object spread can be
    rendered as it behaves; the interface promises the property ["name"]. *)
Abbreviation User := (gmap string string).

(** The fields of [UserComponent].  [loading] is a signal whose content is
    read with [loading()] and written with [loading.set(b)]; the injected
    [cdr] is never used and is left out. *)
Record UserComponent := mkUser {
  user : loc;
  counter : Z;
  apiData : string;
  loading : bool
}.

Definition set_user (l : loc) (c : UserComponent) : UserComponent :=
  {| user := l; counter := counter c; apiData := apiData c; loading := loading c |}.
Definition set_counter (n : Z) (c : UserComponent) : UserComponent :=
  {| user := user c; counter := n; apiData := apiData c; loading := loading c |}.
Definition set_apiData (s : string) (c : UserComponent) : UserComponent :=
  {| user := user c; counter := counter c; apiData := s; loading := loading c |}.
Definition set_loading (b : bool) (c : UserComponent) : UserComponent :=
  {| user := user c; counter := counter c; apiData := apiData c; loading := b |}.

(** *** A small model of the RxJS operators in use

    An observable that is cold, finite and synchronous once it starts is
    the list of values it emits followed by how it ends. *)
Abbreviation JsError := string.

Inductive Completion := Complete | Error (e : JsError).

Definition Notifications (A : Type) : Type := (list A * Completion)%type.

(** [of(a)] ([of] is reserved in Rocq). *)
Definition rx_of {A : Type} (a : A) : Notifications A := ([a], Complete).

(** [tap(f)]: runs [f] on each value, in order, and passes everything on. *)
Definition tap {A : Type} (f : A → UserComponent → UserComponent)
    (src : Notifications A) (c : UserComponent) : UserComponent * Notifications A :=
  (foldl (λ c' a, f a c') c src.1, src).

(** [catchError(selector)]: values pass through; an error ending is handed
    to [selector] and the observable it returns takes over. *)
Definition catchError {A B : Type}
    (selector : JsError → UserComponent → UserComponent * Notifications B)
    (src : Notifications A) (c : UserComponent) : UserComponent * Notifications (A + B) :=
  match src.2 with
  | Complete => (c, (inl <$> src.1, Complete))
  | Error e =>
      let '(c', out) := selector e c in
      (c', ((inl <$> src.1) ++ (inr <$> out.1), out.2))
  end.

(** The payload [{ data: ..., timestamp: ... }] of the simulated API call. *)
Record ApiResponse := mkResponse { data : string; timestamp : string }.

(** Callbacks waiting on a timer.  [BadThen] is the [.then] callback of
    [fetchDataBad], run when [setTimeout(resolve, 1500)] resolves the
    promise; [ObsNext r] is the value that [delay(1500)] holds back in
    [fetchDataWithObservable]. *)
Inductive Task := BadThen | ObsNext (response : ApiResponse).

(** The component, the store of user objects, and the pending timers in the
    order they were set (all with the same delay, so they fire in that
    order). *)
Record World := mkWorld {
  this : UserComponent;
  store : gmap positive User;
  timers : list (Z * Task)
}.

(** Field initialisers: [user = { name: 'John Doe' }], [counter = 0],
    [apiData = 'No data'], [loading = signal(false)]. *)
Definition init : World :=
  {| this := {| user := 1%positive; counter := 0; apiData := "No data"; loading := false |};
     store := {[ 1%positive := {[ "name" := "John Doe" ]} ]};
     timers := [] |}.

(** Writing the property [name]: the properties of [o], except that
    ["name"] holds [v]. *)
Definition with_name (v : string) (o : User) : User := <["name" := v]> o.

(** [[
  mutateUser($event: Event) {
    this.user.name = 'New Name' + Math.random(); // mutation
  }
]]
    [random] is the text of the number drawn by [Math.random()]. *)
Definition mutateUser (random : string) (w : World) : World :=
  {| this := this w;
     store := alter (with_name ("New Name" +:+ random)) (user (this w)) (store w);
     timers := timers w |}.

(** [[
  replaceUser() {
    this.user = { ...this.user, name: 'New Name' }; // new reference
  }
]] *)
Definition replaceUser (w : World) : World :=
  let old := default ∅ (store w !! user (this w)) in
  let l := fresh (dom (store w)) in
  {| this := set_user l (this w);
     store := <[l := with_name "New Name" old]> (store w);
     timers := timers w |}.

(** [incrementBad() { this.counter++; }], and [incrementGood] alike. *)
Definition incrementBad (w : World) : World :=
  {| this := set_counter (counter (this w) + 1) (this w);
     store := store w; timers := timers w |}.

Definition incrementGood (w : World) : World :=
  {| this := set_counter (counter (this w) + 1) (this w);
     store := store w; timers := timers w |}.

(** [[
  fetchDataBad() {
    this.loading.set(true);
    new Promise((resolve) => {
      setTimeout(resolve, 1500);
    }).then(() => { ... });
  }
]] *)
Definition fetchDataBad (w : World) : World :=
  {| this := set_loading true (this w);
     store := store w;
     timers := timers w ++ [(1500, BadThen)] |}.

(** The [.then] callback of [fetchDataBad]:
[[
      this.apiData = `Data fetched at ${new Date().toLocaleTimeString()}`;
      //   this.loading.set(false);
      //   this.cdr.markForCheck();
]]
    [now] is the text of [new Date().toLocaleTimeString()] when it runs. *)
Definition badThen (now : string) (c : UserComponent) : UserComponent :=
  set_apiData ("Data fetched at " +:+ now) c.

(** The [tap] callback of [fetchDataWithObservable]:
[[
          this.apiData = `Data: ${response.data} at ${response.timestamp}`;
          this.loading.set(false);
]] *)
Definition onNext (response : ApiResponse) (c : UserComponent) : UserComponent :=
  set_loading false
    (set_apiData ("Data: " +:+ data response +:+ " at " +:+ timestamp response) c).

(** The [catchError] callback:
[[
          this.loading.set(false);
          return of(null);
]] *)
Definition onError (error : JsError) (c : UserComponent)
    : UserComponent * Notifications unit :=
  (set_loading false c, rx_of ()).

(** What sits below [delay(1500)] in the pipe, that is
    [tap(...)], [catchError(...)] and the final [subscribe()], driven by
    the notifications [src] that reach it. *)
Definition downstream (src : Notifications ApiResponse) (c : UserComponent)
    : UserComponent * Notifications (ApiResponse + unit) :=
  let '(c1, n1) := tap onNext src c in
  catchError onError n1 c1.

(** [.subscribe()] without an observer: the notifications are dropped. *)
Definition subscribe {A : Type} (o : UserComponent → UserComponent * Notifications A)
    (c : UserComponent) : UserComponent :=
  (o c).1.

(** [[
  fetchDataWithObservable() {
    this.loading.set(true);
    of({ data: 'API Response', timestamp: new Date().toLocaleTimeString() })
      .pipe(delay(1500), tap(...), catchError(...))
      .subscribe();
  }
]]
    The timestamp is taken when the method is called. *)
Definition fetchDataWithObservable (now : string) (w : World) : World :=
  {| this := set_loading true (this w);
     store := store w;
     timers := timers w ++
       [(1500, ObsNext {| data := "API Response"; timestamp := now |})] |}.

(** Running a callback whose timer has expired. *)
Definition run_task (t : Task) (now : string) (c : UserComponent) : UserComponent :=
  match t with
  | BadThen => badThen now c
  | ObsNext response => subscribe (downstream (rx_of response)) c
  end.

(** One turn of the event loop: the oldest pending timer fires. *)
Definition fire (now : string) (w : World) : World :=
  match timers w with
  | [] => w
  | (_, t) :: rest =>
      {| this := run_task t now (this w); store := store w; timers := rest |}
  end.

(** Several turns of the event loop, one per reading of the clock. *)
Fixpoint run_timers (clock : list string) (w : World) : World :=
  match clock with
  | [] => w
  | now :: clock' => run_timers clock' (fire now w)
  end.

(** *** The component in use

    What can happen to the component: the template calls one of its
    methods, or a pending timer fires. *)
Inductive Action :=
  | MutateUser (random : string)
  | ReplaceUser
  | IncrementBad
  | IncrementGood
  | FetchDataBad
  | FetchDataWithObservable (now : string)
  | Fire (now : string).

Definition step (a : Action) (w : World) : World :=
  match a with
  | MutateUser random => mutateUser random w
  | ReplaceUser => replaceUser w
  | IncrementBad => incrementBad w
  | IncrementGood => incrementGood w
  | FetchDataBad => fetchDataBad w
  | FetchDataWithObservable now => fetchDataWithObservable now w
  | Fire now => fire now w
  end.

(** A history of the component, oldest action first. *)
Definition run (actions : list Action) (w : World) : World :=
  foldl (λ w' a, step a w') w actions.

Definition is_increment (a : Action) : bool :=
  match a with
  | IncrementBad | IncrementGood => true
  | _ => false
  end.

(** [user] refers to a live object whose only property is [name]. *)
Definition user_ok (w : World) : Prop :=
  ∃ o : gmap string string,
    store w !! user (this w) = Some o ∧ dom o = ({[ "name" ]} : gset string).

(** Whether a pending timer holds a value of the observable fetch. *)
Definition is_obs (timer : Z * Task) : bool :=
  match timer.2 with
  | ObsNext _ => true
  | BadThen => false
  end.

End UserCard.

(* ================================================================= *)
(** ** Facts about the tab group *)

Section TabFacts.
Import Tabs.

Implicit Types (σ : gmap positive TabComponent) (q : list positive).
Implicit Types (l : positive) (g : TabGroupComponent) (tab : TabComponent).

Lemma array_get_Some {A} (arr : list A) index x :
  array_get arr index = Some x ↔ 0 ≤ index ∧ arr !! Z.to_nat index = Some x.
Proof.
  unfold array_get. destruct (decide (0 ≤ index)); [tauto|].
  split; [discriminate | tauto].
Qed.


Lemma array_get_elem_of {A} (arr : list A) index x :
  array_get arr index = Some x → x ∈ arr.
Proof.
  intros [_ H]%array_get_Some. by eapply list_elem_of_lookup_2.
Qed.

Lemma forEach_cons (m : TabComponent → TabComponent) x q σ :
  forEach m (x :: q) σ = forEach m q (call m x σ).
Proof. reflexivity. Qed.

(** What a reference reads after [forEach deactivate]. *)
Lemma forEach_deactivate_lookup q σ l :
  forEach deactivate q σ !! l =
    if decide (l ∈ q) then deactivate <$> σ !! l else σ !! l.
Proof.
  revert σ. induction q as [|x q IH]; intros σ.
  - destruct (decide (l ∈ [])) as [Hin|]; [by apply elem_of_nil in Hin | done].
  - rewrite forEach_cons, IH. unfold call.
    destruct (decide (x = l)) as [->|Hne].
    + rewrite lookup_alter_eq.
      destruct (decide (l ∈ l :: q)) as [_|Hn];
        [|by destruct Hn; apply list_elem_of_here].
      destruct (decide (l ∈ q)); [|done]. by destruct (σ !! l).
    + rewrite lookup_alter_ne by done.
      destruct (decide (l ∈ q)) as [Hin|Hin], (decide (l ∈ x :: q)) as [Hin'|Hin'];
        try done.
      * destruct Hin'. by apply list_elem_of_further.
      * apply elem_of_cons in Hin' as [->|?]; done.
Qed.

(** [selectTab] always returns, and this is what each reference reads in
    the store it leaves. *)
Lemma selectTab_returns g index σ :
  ∃ σ', selectTab g index σ = Returned σ' ∧
    ∀ l, σ' !! l =
      if decide (array_get (tabs g) index = Some l)
      then activate <$> σ !! l
      else if decide (l ∈ tabs g) then deactivate <$> σ !! l else σ !! l.
Proof.
  unfold selectTab, toArray.
  destruct (array_get (tabs g) index) as [l'|] eqn:Hget; cbn [truthy invoke];
    eexists; (split; [reflexivity|]); intros l.
  - apply array_get_elem_of in Hget as Hin. unfold call.
    destruct (decide (l' = l)) as [->|Hne].
    + rewrite decide_True by done. rewrite lookup_alter_eq.
      rewrite forEach_deactivate_lookup, decide_True by done.
      by destruct (σ !! l).
    + rewrite decide_False by congruence.
      rewrite lookup_alter_ne by done. apply forEach_deactivate_lookup.
  - rewrite decide_False by done. apply forEach_deactivate_lookup.
Qed.

(** [ngAfterContentInit] always returns, and this is what each reference
    reads in the store it leaves. *)
Lemma ngAfterContentInit_returns g σ :
  ∃ σ', ngAfterContentInit g σ = Returned σ' ∧
    ∀ l, σ' !! l =
      if decide (tabs g !! 0%nat = Some l) then activate <$> σ !! l else σ !! l.
Proof.
  unfold ngAfterContentInit, first.
  destruct (tabs g) as [|l0 q]; cbn [length head lookup list_lookup].
  - rewrite decide_False by (cbn; lia). eexists; split; [reflexivity|].
    intros l. by rewrite decide_False.
  - rewrite decide_True by (cbn; lia). cbn [invoke].
    eexists; split; [reflexivity|]. intros l. unfold call.
    destruct (decide (l0 = l)) as [->|Hne].
    + by rewrite decide_True, lookup_alter_eq.
    + rewrite decide_False by congruence. by rewrite lookup_alter_ne.
Qed.

(** Any second [selectTab] overrides the first, whatever the indices. *)
Lemma selectTab_selectTab g i j σ :
  selectTab g i σ ≫= selectTab g j = selectTab g j σ.
Proof.
  destruct (selectTab_returns g i σ) as (σi & -> & Hi).
  cbn [mbind Outcome_bind].
  destruct (selectTab_returns g j σi) as (σij & -> & Hij).
  destruct (selectTab_returns g j σ) as (σj & -> & Hj).
  f_equal. apply map_eq; intros l. rewrite Hij, Hj, Hi.
  destruct (decide (array_get (tabs g) j = Some l)) as [Hgj|Hgj].
  - destruct (decide (array_get (tabs g) i = Some l)).
    + by destruct (σ !! l).
    + apply array_get_elem_of in Hgj.
      rewrite decide_True by done. by destruct (σ !! l).
  - destruct (decide (array_get (tabs g) i = Some l)) as [Hgi|Hgi].
    + apply array_get_elem_of in Hgi.
      rewrite !decide_True by done. by destruct (σ !! l).
    + destruct (decide (l ∈ tabs g)); by destruct (σ !! l).
Qed.

(** Counting when no listed reference is active. *)
Lemma count_active_none σ q :
  (∀ l, l ∈ q → is_active σ l = false) → count_active σ q = 0%nat.
Proof.
  induction q as [|x q IH]; intros Hq; [done|].
  cbn [count_active]. rewrite Hq by apply list_elem_of_here.
  rewrite IH; [done|]. intros l Hl. by apply Hq, list_elem_of_further.
Qed.

(** Counting when the listed references are distinct and [l0] alone is
    active. *)
Lemma count_active_single σ q l0 :
  NoDup q → l0 ∈ q →
  (∀ l, l ∈ q → is_active σ l = bool_decide (l = l0)) →
  count_active σ q = 1%nat.
Proof.
  induction q as [|x q IH]; intros Hnd Hin Hq.
  - by apply elem_of_nil in Hin.
  - apply NoDup_cons in Hnd as [Hx Hnd]. cbn [count_active].
    rewrite (Hq x) by apply list_elem_of_here.
    destruct (decide (x = l0)) as [->|Hne].
    + rewrite bool_decide_eq_true_2 by done.
      rewrite count_active_none; [done|].
      intros l Hl. rewrite Hq by by apply list_elem_of_further.
      apply bool_decide_eq_false_2. by intros ->.
    + rewrite bool_decide_eq_false_2 by done.
      apply elem_of_cons in Hin as [->|Hin]; [done|].
      apply IH; [done..|].
      intros l Hl. by apply Hq, list_elem_of_further.
Qed.

(** One selection in range: one active child, and the children stay live. *)
Lemma selectTab_one_active g index σ :
  NoDup (tabs g) → live g σ → in_range g index →
  ∃ σ', selectTab g index σ = Returned σ' ∧ live g σ' ∧
        count_active σ' (tabs g) = 1%nat.
Proof.
  intros Hnd Hlive [H0 Hlt].
  destruct (selectTab_returns g index σ) as (σ' & Hret & Hlook).
  exists σ'. split; [done|]. split.
  - intros l Hl. rewrite Hlook. destruct (Hlive l Hl) as [tab ->].
    repeat destruct (decide _); cbn; eauto.
  - destruct (lookup_lt_is_Some_2 (tabs g) (Z.to_nat index)) as [l0 Hl0]; [lia|].
    assert (l0 ∈ tabs g) as Hin0 by by eapply list_elem_of_lookup_2.
    apply (count_active_single _ _ l0); [done..|].
    intros l Hl. unfold is_active. rewrite Hlook.
    destruct (Hlive l Hl) as [tab ->].
    destruct (decide (array_get (tabs g) index = Some l)) as [Hget|Hget].
    + apply array_get_Some in Hget as [_ Hget].
      rewrite bool_decide_eq_true_2; [done | congruence].
    + rewrite decide_True by done.
      rewrite bool_decide_eq_false_2; [done|].
      intros ->. apply Hget, array_get_Some. done.
Qed.

Lemma fresh_children_live g σ : fresh_children g σ → live g σ.
Proof.
  intros [_ Hall] l Hl. rewrite Forall_forall in Hall.
  destruct (Hall l Hl) as (tab & -> & _). eauto.
Qed.

(** Content initialisation of a non-empty group: one active child. *)
Lemma ngAfterContentInit_one_active g σ :
  fresh_children g σ → tabs g ≠ [] →
  ∃ σ', ngAfterContentInit g σ = Returned σ' ∧ live g σ' ∧
        count_active σ' (tabs g) = 1%nat.
Proof.
  intros [Hnd Hall] Hne. rewrite Forall_forall in Hall.
  destruct (ngAfterContentInit_returns g σ) as (σ' & Hret & Hlook).
  exists σ'. split; [done|]. split.
  - intros l Hl. rewrite Hlook. destruct (Hall l Hl) as (tab & -> & _).
    destruct (decide _); cbn; eauto.
  - destruct (tabs g) as [|l0 q] eqn:Hq; [done|].
    apply (count_active_single _ _ l0); [done | apply list_elem_of_here |].
    intros l Hl. unfold is_active. rewrite Hlook.
    destruct (Hall l Hl) as (tab & -> & Hoff). cbn [lookup list_lookup].
    destruct (decide (Some l0 = Some l)) as [Heq|Hneq]; cbn.
    + rewrite bool_decide_eq_true_2; [done | congruence].
    + rewrite bool_decide_eq_false_2; [done | congruence].
Qed.

(** A run of selections in range keeps one active child. *)
Lemma selectTabs_one_active g indices σ :
  NoDup (tabs g) → live g σ →
  count_active σ (tabs g) = 1%nat →
  Forall (in_range g) indices →
  ∃ σ', selectTabs g indices σ = Returned σ' ∧
        count_active σ' (tabs g) = 1%nat.
Proof.
  intros Hnd. revert σ.
  induction indices as [|i indices IH]; intros σ Hlive Hone Hall.
  - by exists σ.
  - apply Forall_cons in Hall as [Hi Hall]. cbn [selectTabs].
    destruct (selectTab_one_active g i σ Hnd Hlive Hi) as (σ1 & -> & Hlive1 & Hone1).
    cbn [mbind Outcome_bind]. by apply IH.
Qed.

(** No run of selections throws. *)
Lemma selectTabs_returns g indices σ :
  ∃ σ', selectTabs g indices σ = Returned σ'.
Proof.
  revert σ. induction indices as [|i indices IH]; intros σ.
  - by exists σ.
  - cbn [selectTabs]. destruct (selectTab_returns g i σ) as (σ1 & -> & _).
    apply IH.
Qed.

(** A selection, whatever its index, keeps the children live. *)
Lemma selectTab_keeps_live g index σ :
  live g σ → ∃ σ', selectTab g index σ = Returned σ' ∧ live g σ'.
Proof.
  intros Hlive.
  destruct (selectTab_returns g index σ) as (σ' & Hret & Hlook).
  exists σ'. split; [done|]. intros l Hl. rewrite Hlook.
  destruct (Hlive l Hl) as [tab ->].
  repeat destruct (decide _); cbn; eauto.
Qed.

Lemma selectTabs_keep_live g indices σ :
  live g σ → ∃ σ', selectTabs g indices σ = Returned σ' ∧ live g σ'.
Proof.
  revert σ. induction indices as [|i indices IH]; intros σ Hlive.
  - by exists σ.
  - cbn [selectTabs].
    destruct (selectTab_keeps_live g i σ Hlive) as (σ1 & -> & Hlive1).
    cbn [mbind Outcome_bind]. by apply IH.
Qed.

(** A run of selections in two parts. *)
Lemma selectTabs_app g indices1 indices2 σ :
  selectTabs g (indices1 ++ indices2) σ =
    selectTabs g indices1 σ ≫= selectTabs g indices2.
Proof.
  revert σ. induction indices1 as [|i indices1 IH]; intros σ; [done|].
  cbn [app selectTabs].
  destruct (selectTab_returns g i σ) as (σ1 & -> & _).
  cbn [mbind Outcome_bind]. apply IH.
Qed.

(** The two-tab group, step by step. *)
Example two_tabs_init :
  ngAfterContentInit two_tabs two_tabs_store = Returned two_tabs_first.
Proof. vm_compute. reflexivity. Qed.

Example two_tabs_select_second :
  selectTab two_tabs 1 two_tabs_first = Returned two_tabs_second.
Proof. vm_compute. reflexivity. Qed.

Example two_tabs_select_past_end :
  selectTab two_tabs 2 two_tabs_first = Returned two_tabs_none.
Proof. vm_compute. reflexivity. Qed.

Example two_tabs_select_negative :
  selectTab two_tabs (-1) two_tabs_second = Returned two_tabs_none.
Proof. vm_compute. reflexivity. Qed.

Lemma two_tabs_fresh : fresh_children two_tabs two_tabs_store.
Proof.
  split.
  - apply NoDup_cons; split; [|apply NoDup_singleton].
    intros Hin. apply list_elem_of_singleton in Hin. discriminate.
  - repeat constructor; eexists; (split; [reflexivity | reflexivity]).
Qed.

Lemma no_tabs_fresh : fresh_children no_tabs ∅.
Proof. split; [apply NoDup_nil_2 | apply Forall_nil_2]. Qed.

(** C1, as the specification words it, does not hold: a selection with an
    index past the last tab leaves the two-tab group with no active tab, and
    a group without tabs has no active tab after content initialisation. *)
Lemma exactly_one_active_fails :
  (fresh_children two_tabs two_tabs_store ∧
   session two_tabs [2] two_tabs_store = Returned two_tabs_none ∧
   count_active two_tabs_none (tabs two_tabs) ≠ 1%nat) ∧
  (fresh_children no_tabs ∅ ∧
   session no_tabs [] ∅ = Returned ∅ ∧
   count_active ∅ (tabs no_tabs) ≠ 1%nat).
Proof.
  split; (split; [|split]).
  - apply two_tabs_fresh.
  - vm_compute. reflexivity.
  - vm_compute. discriminate.
  - apply no_tabs_fresh.
  - vm_compute. reflexivity.
  - vm_compute. discriminate.
Qed.

(** C1, amended: for a group with at least one tab whose children are as
    Angular delivers them (distinct objects, none active yet), exactly one
    child tab is active after [ngAfterContentInit], and again after every
    completed [selectTab] call whose integer index is in range, whatever
    the calls before it were. *)
Theorem exactly_one_active g σ (earlier : list Z) (index : Z) :
  fresh_children g σ →
  tabs g ≠ [] →
  in_range g index →
  (∃ σ0, session g [] σ = Returned σ0 ∧ count_active σ0 (tabs g) = 1%nat) ∧
  (∃ σ', session g (earlier ++ [index]) σ = Returned σ' ∧
         count_active σ' (tabs g) = 1%nat).
Proof.
  intros Hfresh Hne Hin. unfold session.
  destruct (ngAfterContentInit_one_active g σ Hfresh Hne)
    as (σ0 & -> & Hlive & Hone).
  cbn [mbind Outcome_bind]. split; [by exists σ0|].
  rewrite selectTabs_app.
  destruct (selectTabs_keep_live g earlier σ0 Hlive) as (σ1 & -> & Hlive1).
  cbn [mbind Outcome_bind selectTabs].
  destruct (selectTab_one_active g index σ1 (proj1 Hfresh) Hlive1 Hin)
    as (σ' & -> & _ & Hone').
  by exists σ'.
Qed.

Lemma exactly_one_active_witness :
  fresh_children two_tabs two_tabs_store ∧
  tabs two_tabs ≠ [] ∧
  in_range two_tabs 0 ∧
  (∃ σ0, session two_tabs [] two_tabs_store = Returned σ0 ∧
         count_active σ0 (tabs two_tabs) = 1%nat) ∧
  (∃ σ', session two_tabs ([2; -1] ++ [0]) two_tabs_store = Returned σ' ∧
         count_active σ' (tabs two_tabs) = 1%nat).
Proof.
  assert (in_range two_tabs 0) as Hin by (unfold in_range; cbn; lia).
  split; [apply two_tabs_fresh|]. split; [done|]. split; [exact Hin|].
  exact (exactly_one_active two_tabs two_tabs_store [2; -1] 0
           two_tabs_fresh ltac:(done) Hin).
Defined.

(** C2: for every index, [selectTab(index)] returns and leaves the child at
    position [index] with [active = true] and every other child with
    [active = false]; titles are kept.  The children are distinct live
    objects. *)
Theorem selectTab_spec g index σ (k : nat) l tab :
  NoDup (tabs g) →
  tabs g !! k = Some l →
  σ !! l = Some tab →
  ∃ σ', selectTab g index σ = Returned σ' ∧
    σ' !! l =
      Some {| title := title tab; active := bool_decide (Z.of_nat k = index) |}.
Proof.
  intros Hnd Hk Hl.
  destruct (selectTab_returns g index σ) as (σ' & Hret & Hlook).
  exists σ'. split; [done|]. rewrite Hlook, Hl.
  assert (l ∈ tabs g) as Hin by by eapply list_elem_of_lookup_2.
  destruct (decide (array_get (tabs g) index = Some l)) as [Hget|Hget].
  - apply array_get_Some in Hget as [H0 Hget].
    assert (Z.to_nat index = k) by by eapply NoDup_lookup.
    rewrite bool_decide_eq_true_2 by lia. done.
  - rewrite decide_True by done.
    rewrite bool_decide_eq_false_2; [done|].
    intros <-. apply Hget, array_get_Some. split; [lia|].
    by rewrite Nat2Z.id.
Qed.

Lemma selectTab_spec_witness :
  NoDup (tabs two_tabs) ∧
  tabs two_tabs !! 0%nat = Some 1%positive ∧
  two_tabs_first !! 1%positive = Some {| title := "Profile"; active := true |} ∧
  ∃ σ', selectTab two_tabs 1 two_tabs_first = Returned σ' ∧
    σ' !! 1%positive = Some {| title := "Profile"; active := false |}.
Proof.
  split; [apply two_tabs_fresh|]. split; [reflexivity|]. split; [reflexivity|].
  exact (selectTab_spec two_tabs 1 two_tabs_first 0 1%positive
           {| title := "Profile"; active := true |}
           (proj1 two_tabs_fresh) eq_refl eq_refl).
Defined.

(** C3: when the list of children is not empty, [ngAfterContentInit]
    returns having set [active = true] on the first child, and touches
    nothing else. *)
Theorem ngAfterContentInit_activates_first g σ :
  tabs g ≠ [] →
  ∃ l σ', tabs g !! 0%nat = Some l ∧
    ngAfterContentInit g σ = Returned σ' ∧
    (∀ tab, σ !! l = Some tab →
       σ' !! l = Some {| title := title tab; active := true |}) ∧
    (∀ l', l' ≠ l → σ' !! l' = σ !! l').
Proof.
  intros Hne.
  destruct (ngAfterContentInit_returns g σ) as (σ' & Hret & Hlook).
  destruct (tabs g) as [|l q] eqn:Hq; [done|].
  exists l, σ'. split; [done|]. split; [done|]. split.
  - intros tab Htab. by rewrite Hlook, decide_True, Htab.
  - intros l' Hl'. rewrite Hlook, decide_False; [done|].
    cbn. congruence.
Qed.

Lemma ngAfterContentInit_activates_first_witness :
  tabs two_tabs ≠ [] ∧
  ∃ l σ', tabs two_tabs !! 0%nat = Some l ∧
    ngAfterContentInit two_tabs two_tabs_store = Returned σ' ∧
    (∀ tab, two_tabs_store !! l = Some tab →
       σ' !! l = Some {| title := title tab; active := true |}) ∧
    (∀ l', l' ≠ l → σ' !! l' = two_tabs_store !! l').
Proof.
  split; [done|].
  exact (ngAfterContentInit_activates_first two_tabs two_tabs_store ltac:(done)).
Defined.



(** C8: for indices in range, [selectTab(i)] followed by [selectTab(j)]
    ends as [selectTab(j)] alone does, with the same store of tabs, and
    [selectTab(i)] twice ends as [selectTab(i)] once; none of these calls
    throws. *)
Theorem selectTab_absorbs g i j σ :
  in_range g i → in_range g j →
  (selectTab g i σ ≫= selectTab g j = selectTab g j σ) ∧
  (selectTab g i σ ≫= selectTab g i = selectTab g i σ) ∧
  ∃ σi σj, selectTab g i σ = Returned σi ∧ selectTab g j σ = Returned σj.
Proof.
  intros _ _. split; [apply selectTab_selectTab|].
  split; [apply selectTab_selectTab|].
  destruct (selectTab_returns g i σ) as (σi & Hi & _).
  destruct (selectTab_returns g j σ) as (σj & Hj & _).
  by exists σi, σj.
Qed.

Lemma selectTab_absorbs_witness :
  in_range two_tabs 0 ∧ in_range two_tabs 1 ∧
  (selectTab two_tabs 0 two_tabs_store ≫= selectTab two_tabs 1 =
     selectTab two_tabs 1 two_tabs_store) ∧
  (selectTab two_tabs 0 two_tabs_store ≫= selectTab two_tabs 0 =
     selectTab two_tabs 0 two_tabs_store) ∧
  ∃ σi σj, selectTab two_tabs 0 two_tabs_store = Returned σi ∧
           selectTab two_tabs 1 two_tabs_store = Returned σj.
Proof.
  assert (in_range two_tabs 0) as H0 by (unfold in_range; cbn; lia).
  assert (in_range two_tabs 1) as H1 by (unfold in_range; cbn; lia).
  split; [exact H0|]. split; [exact H1|].
  exact (selectTab_absorbs two_tabs 0 1 two_tabs_store H0 H1).
Defined.

(* ----------------------------------------------------------------- *)
(** *** Further properties of the tab group *)

Lemma Outcome_bind_Returned {A} (o : Outcome A) : o ≫= Returned = o.
Proof. by destruct o. Qed.

(** Counting when the listed references are distinct and none but [l0] can
    be active. *)
Lemma count_active_le_one σ q l0 :
  NoDup q →
  (∀ l, l ∈ q → l ≠ l0 → is_active σ l = false) →
  (count_active σ q ≤ 1)%nat.
Proof.
  induction q as [|x q IH]; intros Hnd Hq; cbn [count_active]; [lia|].
  apply NoDup_cons in Hnd as [Hx Hnd].
  destruct (decide (x = l0)) as [->|Hne].
  - rewrite (count_active_none σ q); [destruct (is_active σ l0); lia|].
    intros l Hl. apply Hq; [by apply list_elem_of_further|].
    by intros ->.
  - rewrite (Hq x) by (done || apply list_elem_of_here).
    apply IH; [done|]. intros l Hl. by apply Hq, list_elem_of_further.
Qed.

(** The drawn children when the listed references are distinct and [l0]
    alone is active. *)
Lemma shown_single σ q l0 :
  NoDup q → l0 ∈ q →
  (∀ l, l ∈ q → is_active σ l = bool_decide (l = l0)) →
  shown σ q = [l0].
Proof.
  unfold shown. induction q as [|x q IH]; intros Hnd Hin Hq.
  - by apply elem_of_nil in Hin.
  - apply NoDup_cons in Hnd as [Hx Hnd]. cbn [List.filter].
    rewrite (Hq x) by apply list_elem_of_here.
    destruct (decide (x = l0)) as [->|Hne].
    + rewrite bool_decide_eq_true_2 by done. f_equal.
      clear IH Hin Hnd. induction q as [|y q IHq]; [done|].
      cbn [List.filter]. rewrite Hq by (apply list_elem_of_further, list_elem_of_here).
      rewrite bool_decide_eq_false_2.
      * apply IHq.
        -- intros Hl0. apply Hx. by apply list_elem_of_further.
        -- intros l Hl. apply Hq. apply elem_of_cons in Hl as [->|Hl].
           ++ apply list_elem_of_here.
           ++ by do 2 apply list_elem_of_further.
      * intros ->. apply Hx, list_elem_of_here.
    + rewrite bool_decide_eq_false_2 by done.
      apply elem_of_cons in Hin as [->|Hin]; [done|].
      apply IH; [done..|].
      intros l Hl. by apply Hq, list_elem_of_further.
Qed.

(** The flags of the live children after a selection in range. *)
Lemma selectTab_flags g (k : nat) l0 σ σ' :
  NoDup (tabs g) → live g σ →
  tabs g !! k = Some l0 →
  selectTab g (Z.of_nat k) σ = Returned σ' →
  ∀ l, l ∈ tabs g → is_active σ' l = bool_decide (l = l0).
Proof.
  intros Hnd Hlive Hk Hret l Hl.
  destruct (selectTab_returns g (Z.of_nat k) σ) as (σ'' & Hret' & Hlook).
  rewrite Hret in Hret'. injection Hret' as <-.
  unfold is_active. rewrite Hlook. destruct (Hlive l Hl) as [tab ->].
  assert (array_get (tabs g) (Z.of_nat k) = Some l0) as Hget.
  { apply array_get_Some. split; [lia|]. by rewrite Nat2Z.id. }
  rewrite Hget.
  destruct (decide (Some l0 = Some l)) as [Heq|Hneq].
  - rewrite bool_decide_eq_true_2; [done | congruence].
  - rewrite decide_True by done.
    rewrite bool_decide_eq_false_2; [done | congruence].
Qed.

(** What a click does: the handler of a button that exists selects the
    position of the button. *)
Lemma click_header_eq g (k : nat) σ :
  click_header g k σ =
    if decide (k < length (tabs g))%nat then selectTab g (Z.of_nat k) σ
    else Returned σ.
Proof.
  unfold click_header, headers. rewrite list_lookup_imap.
  destruct (decide (k < length (tabs g))%nat) as [Hlt|Hge].
  - destruct (lookup_lt_is_Some_2 (tabs g) k Hlt) as [l ->]. done.
  - rewrite (proj2 (lookup_ge_None (tabs g) k)) by lia. done.
Qed.

(** X1: a tab group never throws: content initialisation followed by any
    run of [selectTab] calls, with any indices and any number of children,
    returns. *)
Theorem session_never_throws g (indices : list Z) σ :
  ∃ σ', session g indices σ = Returned σ'.
Proof.
  unfold session.
  destruct (ngAfterContentInit_returns g σ) as (σ0 & -> & _).
  apply selectTabs_returns.
Qed.

(** X2: [selectTab] writes [active] flags of the children of its own group
    only: it creates and drops no object, keeps every title, and leaves
    every object that is not a child of the group as it was. *)
Theorem selectTab_frame g index σ :
  ∃ σ', selectTab g index σ = Returned σ' ∧
    dom σ' = dom σ ∧
    (∀ l, title <$> σ' !! l = title <$> σ !! l) ∧
    (∀ l, l ∉ tabs g → σ' !! l = σ !! l).
Proof.
  destruct (selectTab_returns g index σ) as (σ' & Hret & Hlook).
  exists σ'. split; [done|].
  assert (∀ l, title <$> σ' !! l = title <$> σ !! l) as Htitle.
  { intros l. rewrite Hlook.
    repeat destruct (decide _); by destruct (σ !! l). }
  split; [|split; [done|]].
  - apply set_eq. intros l. rewrite !elem_of_dom.
    rewrite <-(fmap_is_Some title (σ' !! l)), <-(fmap_is_Some title (σ !! l)).
    by rewrite Htitle.
  - intros l Hl. rewrite Hlook.
    destruct (decide (array_get (tabs g) index = Some l)) as [Hget|Hget].
    + by apply array_get_elem_of in Hget.
    + by rewrite decide_False.
Qed.

(** X3: whatever the index and whatever the flags before, after
    [selectTab] at most one child of the group is active. *)
Theorem selectTab_at_most_one_active g index σ :
  NoDup (tabs g) →
  ∃ σ', selectTab g index σ = Returned σ' ∧
        (count_active σ' (tabs g) ≤ 1)%nat.
Proof.
  intros Hnd.
  destruct (selectTab_returns g index σ) as (σ' & Hret & Hlook).
  exists σ'. split; [done|].
  assert (∀ l, l ∈ tabs g → array_get (tabs g) index ≠ Some l →
            is_active σ' l = false) as Hoff.
  { intros l Hl Hget. unfold is_active. rewrite Hlook.
    rewrite decide_False by done. rewrite decide_True by done.
    by destruct (σ !! l). }
  destruct (array_get (tabs g) index) as [l0|] eqn:Hget.
  - apply (count_active_le_one _ _ l0); [done|].
    intros l Hl Hne. apply Hoff; [done | congruence].
  - rewrite count_active_none; [lia|].
    intros l Hl. by apply Hoff.
Qed.

Lemma selectTab_at_most_one_active_witness :
  NoDup (tabs two_tabs) ∧
  ∃ σ', selectTab two_tabs 7 two_tabs_second = Returned σ' ∧
        (count_active σ' (tabs two_tabs) ≤ 1)%nat.
Proof.
  split; [apply two_tabs_fresh|].
  exact (selectTab_at_most_one_active two_tabs 7 two_tabs_second
           (proj1 two_tabs_fresh)).
Defined.

(** X4: only the last selection of a run counts: a run of [selectTab]
    calls ending with index [j] ends as the single call [selectTab(j)]
    does. *)
Theorem selectTabs_last_wins g (indices : list Z) j σ :
  selectTabs g (indices ++ [j]) σ = selectTab g j σ.
Proof.
  revert σ. induction indices as [|i indices IH]; intros σ.
  - cbn [app selectTabs].
    change (selectTabs g []) with (@Returned (gmap positive TabComponent)).
    apply Outcome_bind_Returned.
  - cbn [app selectTabs]. rewrite <-(selectTab_selectTab g i j σ).
    destruct (selectTab_returns g i σ) as (σi & -> & _).
    cbn [mbind Outcome_bind]. apply IH.
Qed.

(** X6: after a click on the [k]-th header button, that button alone is
    marked active in the header row, and the labels are as before. *)
Theorem click_header_marks_clicked g (k : nat) σ :
  NoDup (tabs g) → live g σ → (k < length (tabs g))%nat →
  ∃ σ', click_header g k σ = Returned σ' ∧
    ∀ (k' : nat) l, tabs g !! k' = Some l →
      headers g σ' !! k' =
        Some {| label := title_of σ l; class_active := bool_decide (k' = k);
                click := Z.of_nat k' |}.
Proof.
  intros Hnd Hlive Hlt. rewrite click_header_eq, decide_True by done.
  destruct (lookup_lt_is_Some_2 (tabs g) k Hlt) as [l0 Hl0].
  destruct (selectTab_frame g (Z.of_nat k) σ) as (σ' & Hret & _ & Htitle & _).
  exists σ'. split; [done|]. intros k' l Hk'.
  assert (l ∈ tabs g) as Hl by by eapply list_elem_of_lookup_2.
  unfold headers. rewrite list_lookup_imap, Hk'. cbn [fmap option_fmap option_map].
  f_equal. f_equal.
  - unfold title_of. specialize (Htitle l).
    by destruct (σ' !! l), (σ !! l); simplify_eq/=.
  - rewrite (selectTab_flags g k l0 σ σ') by done.
    apply bool_decide_ext. split.
    + intros ->. by eapply NoDup_lookup.
    + intros ->. congruence.
Qed.

Lemma click_header_marks_clicked_witness :
  NoDup (tabs two_tabs) ∧ live two_tabs two_tabs_first ∧
  (1 < length (tabs two_tabs))%nat ∧
  ∃ σ', click_header two_tabs 1 two_tabs_first = Returned σ' ∧
    ∀ (k' : nat) l, tabs two_tabs !! k' = Some l →
      headers two_tabs σ' !! k' =
        Some {| label := title_of two_tabs_first l;
                class_active := bool_decide (k' = 1%nat);
                click := Z.of_nat k' |}.
Proof.
  assert (live two_tabs two_tabs_first) as Hlive.
  { intros l Hl. apply elem_of_cons in Hl as [->|Hl]; [by eexists|].
    apply list_elem_of_singleton in Hl as ->. by eexists. }
  assert (1 < length (tabs two_tabs))%nat as Hlt by (cbn; lia).
  split; [apply two_tabs_fresh|]. split; [exact Hlive|]. split; [exact Hlt|].
  exact (click_header_marks_clicked two_tabs 1 two_tabs_first
           (proj1 two_tabs_fresh) Hlive Hlt).
Defined.

(** X7: after [selectTab] with the position of a child, the content of
    that child is drawn and the content of no other child is. *)
Theorem selectTab_shows_selected g (k : nat) l σ :
  NoDup (tabs g) → live g σ → tabs g !! k = Some l →
  ∃ σ', selectTab g (Z.of_nat k) σ = Returned σ' ∧ shown σ' (tabs g) = [l].
Proof.
  intros Hnd Hlive Hk.
  destruct (selectTab_returns g (Z.of_nat k) σ) as (σ' & Hret & _).
  exists σ'. split; [done|].
  apply shown_single; [done | by eapply list_elem_of_lookup_2 |].
  by apply (selectTab_flags g k l σ σ').
Qed.

Lemma selectTab_shows_selected_witness :
  NoDup (tabs two_tabs) ∧ live two_tabs two_tabs_store ∧
  tabs two_tabs !! 1%nat = Some 2%positive ∧
  ∃ σ', selectTab two_tabs (Z.of_nat 1) two_tabs_store = Returned σ' ∧
        shown σ' (tabs two_tabs) = [2%positive].
Proof.
  pose proof (fresh_children_live _ _ two_tabs_fresh) as Hlive.
  split; [apply two_tabs_fresh|]. split; [exact Hlive|]. split; [reflexivity|].
  exact (selectTab_shows_selected two_tabs 1 2%positive two_tabs_store
           (proj1 two_tabs_fresh) Hlive eq_refl).
Defined.

(** X8: driven through its header row only, a group with at least one
    child keeps exactly one child active: after content initialisation
    and after any run of clicks, whatever is clicked. *)
Theorem clicks_exactly_one_active g σ (ks : list nat) :
  fresh_children g σ → tabs g ≠ [] →
  ∃ σ', ngAfterContentInit g σ ≫= clicks g ks = Returned σ' ∧
        count_active σ' (tabs g) = 1%nat.
Proof.
  intros Hfresh Hne.
  destruct (ngAfterContentInit_one_active g σ Hfresh Hne)
    as (σ0 & -> & Hlive & Hone).
  cbn [mbind Outcome_bind]. destruct Hfresh as [Hnd _].
  clear σ Hne. revert σ0 Hlive Hone.
  induction ks as [|k ks IH]; intros σ Hlive Hone; [by exists σ|].
  cbn [clicks]. rewrite click_header_eq.
  destruct (decide (k < length (tabs g))%nat) as [Hlt|Hge].
  - destruct (selectTab_one_active g (Z.of_nat k) σ Hnd Hlive)
      as (σ1 & -> & Hlive1 & Hone1); [unfold in_range; lia|].
    cbn [mbind Outcome_bind]. by apply IH.
  - cbn [mbind Outcome_bind]. by apply IH.
Qed.

Lemma clicks_exactly_one_active_witness :
  fresh_children two_tabs two_tabs_store ∧ tabs two_tabs ≠ [] ∧
  ∃ σ', ngAfterContentInit two_tabs two_tabs_store ≫= clicks two_tabs [1; 5; 0]%nat
          = Returned σ' ∧
        count_active σ' (tabs two_tabs) = 1%nat.
Proof.
  split; [apply two_tabs_fresh|]. split; [done|].
  exact (clicks_exactly_one_active two_tabs two_tabs_store [1; 5; 0]%nat
           two_tabs_fresh ltac:(done)).
Defined.

(** X9: [ngAfterContentInit] only ever sets a flag: a child that was
    active stays active, so the call establishes a single active child
    only on children that start inactive; and running it again changes
    nothing. *)
Theorem ngAfterContentInit_only_activates g σ :
  ∃ σ', ngAfterContentInit g σ = Returned σ' ∧
    (∀ l, is_active σ l = true → is_active σ' l = true) ∧
    ngAfterContentInit g σ' = Returned σ'.
Proof.
  destruct (ngAfterContentInit_returns g σ) as (σ' & Hret & Hlook).
  exists σ'. split; [done|]. split.
  - intros l. unfold is_active. rewrite Hlook.
    destruct (decide _); by destruct (σ !! l).
  - destruct (ngAfterContentInit_returns g σ') as (σ'' & Hret' & Hlook').
    rewrite Hret'. f_equal. apply map_eq. intros l.
    rewrite Hlook', Hlook.
    destruct (decide _); by destruct (σ !! l).
Qed.

End TabFacts.

(* ================================================================= *)
(** ** Facts about the user card *)

Section UserFacts.
Import UserCard.

Implicit Types (w : World) (c : UserComponent) (t : Task).

(** When the timers are run, the one set last runs last, on whatever the
    earlier callbacks made of the component. *)
Lemma run_timers_last clock c (s : gmap positive User) ts d t :
  length clock = S (length ts) →
  ∃ c' later,
    run_timers clock {| this := c; store := s; timers := ts ++ [(d, t)] |} =
      {| this := run_task t later c'; store := s; timers := [] |}.
Proof.
  revert clock c. induction ts as [|[d' t'] ts IH]; intros clock c Hlen.
  - destruct clock as [|now [|? ?]]; try discriminate.
    by exists c, now.
  - destruct clock as [|now clock]; [discriminate|].
    cbn [run_timers]. unfold fire. cbn [timers app this store].
    apply IH. cbn in Hlen. lia.
Qed.

Lemma onNext_loading r c : loading (onNext r c) = false.
Proof. reflexivity. Qed.

Lemma tap_onNext_loading vs k c :
  vs ≠ [] → loading (tap onNext (vs, k) c).1 = false.
Proof.
  unfold tap. cbn [fst]. revert c.
  induction vs as [|v vs IH] using rev_ind; intros c Hne; [done|].
  by rewrite foldl_app.
Qed.


(** The pipe below [delay] never ends in an error: [catchError] replaces
    an error ending by the ending of [of(null)]. *)
Lemma downstream_completes src c : (downstream src c).2.2 = Complete.
Proof. destruct src as [vs [|e]]; reflexivity. Qed.

(** C5: [replaceUser] points [user] at an object that did not exist
    before, whose [name] is ['New Name'] and whose other properties are
    those of the previous user object, which itself stays as it was;
    [mutateUser] writes [name] in the object [user] already refers to and
    allocates nothing; neither touches [counter], [apiData], [loading] or
    the pending timers. *)
Theorem replaceUser_fresh_mutateUser_in_place w (old : gmap string string) random :
  store w !! user (this w) = Some old →
  ((user (this (replaceUser w)) ∉ dom (store w)) ∧
   store (replaceUser w) !! user (this (replaceUser w)) =
     Some (with_name "New Name" old) ∧
   with_name "New Name" old !! "name" = Some "New Name" ∧
   (∀ k, k ≠ "name" → with_name "New Name" old !! k = old !! k) ∧
   (∀ l, l ∈ dom (store w) → store (replaceUser w) !! l = store w !! l) ∧
   counter (this (replaceUser w)) = counter (this w) ∧
   apiData (this (replaceUser w)) = apiData (this w) ∧
   loading (this (replaceUser w)) = loading (this w) ∧
   timers (replaceUser w) = timers w) ∧
  (this (mutateUser random w) = this w ∧
   dom (store (mutateUser random w)) = dom (store w) ∧
   store (mutateUser random w) !! user (this w) =
     Some (with_name ("New Name" +:+ random) old) ∧
   with_name ("New Name" +:+ random) old !! "name" = Some ("New Name" +:+ random) ∧
   (∀ k, k ≠ "name" → with_name ("New Name" +:+ random) old !! k = old !! k) ∧
   (∀ l, l ≠ user (this w) → store (mutateUser random w) !! l = store w !! l) ∧
   timers (mutateUser random w) = timers w).
Proof.
  intros Hold. unfold with_name. split.
  - unfold replaceUser, with_name. cbn [this store timers set_user user counter apiData loading].
    rewrite Hold. cbn [default].
    pose proof (is_fresh (dom (store w))) as Hfresh.
    split; [done|]. split; [by rewrite lookup_insert_eq|].
    split; [by rewrite lookup_insert_eq|].
    split; [intros k Hk; by rewrite lookup_insert_ne|].
    split; [|done].
    intros l Hl. rewrite lookup_insert_ne; [done|]. by intros <-.
  - unfold mutateUser, with_name. cbn [this store timers].
    split; [done|]. split; [apply dom_alter_L|].
    split; [by rewrite lookup_alter_eq, Hold|].
    split; [by rewrite lookup_insert_eq|].
    split; [intros k Hk; by rewrite lookup_insert_ne|].
    split; [|done].
    intros l Hl. by rewrite lookup_alter_ne.
Qed.

(** C6: [fetchDataWithObservable] sets [loading] at once; the delayed
    value, whenever its timer fires, runs the [tap] callback, which clears
    [loading]; an error reaching [catchError] clears it as well; so once
    the timers pending after the call have all fired, [loading] is false. *)
Theorem fetchDataWithObservable_clears_loading w now clock :
  length clock = S (length (timers w)) →
  loading (this (fetchDataWithObservable now w)) = true ∧
  (∀ response later c, loading (run_task (ObsNext response) later c) = false) ∧
  (∀ vs e c, loading (subscribe (downstream (vs, Error e)) c) = false) ∧
  loading (this (run_timers clock (fetchDataWithObservable now w))) = false ∧
  timers (run_timers clock (fetchDataWithObservable now w)) = [].
Proof.
  intros Hlen. split; [done|]. split; [done|]. split; [done|].
  unfold fetchDataWithObservable.
  destruct (run_timers_last clock (set_loading true (this w)) (store w) (timers w)
              1500 (ObsNext {| data := "API Response"; timestamp := now |}) Hlen)
    as (c' & later & ->).
  done.
Qed.





Lemma replaceUser_fresh_mutateUser_in_place_witness :
  store init !! user (this init) = Some {[ "name" := "John Doe" ]} ∧
  store (replaceUser init) !! user (this (replaceUser init)) =
    Some (with_name "New Name" {[ "name" := "John Doe" ]}) ∧
  store (replaceUser init) !! user (this init) = store init !! user (this init) ∧
  this (mutateUser "0.25" init) = this init ∧
  store (mutateUser "0.25" init) !! user (this init) =
    Some (with_name "New Name0.25" {[ "name" := "John Doe" ]}).
Proof.
  assert (store init !! user (this init) = Some {[ "name" := "John Doe" ]}) as Hold
    by reflexivity.
  pose proof (replaceUser_fresh_mutateUser_in_place init _ "0.25" Hold)
    as [(_ & Hnew & _ & _ & Hkeep & _) (Hthis & _ & Hmut & _)].
  split; [exact Hold|]. split; [exact Hnew|].
  split; [apply Hkeep; apply elem_of_dom; rewrite Hold; eauto|].
  split; [exact Hthis | exact Hmut].
Defined.

Lemma fetchDataWithObservable_clears_loading_witness :
  length ["10:00:02"] = S (length (timers init)) ∧
  loading (this (fetchDataWithObservable "10:00:00" init)) = true ∧
  loading (this (run_timers ["10:00:02"] (fetchDataWithObservable "10:00:00" init)))
    = false.
Proof.
  assert (length ["10:00:02"] = S (length (timers init))) as Hlen by reflexivity.
  pose proof (fetchDataWithObservable_clears_loading init "10:00:00" _ Hlen)
    as (Hstart & _ & _ & Hend & _).
  split; [exact Hlen|]. split; [exact Hstart | exact Hend].
Defined.


(** The two fetches on the component as first built. *)
Example fetchDataWithObservable_run :
  this (run_timers ["10:00:02"] (fetchDataWithObservable "10:00:00" init)) =
    {| user := 1%positive; counter := 0;
       apiData := "Data: API Response at 10:00:00"; loading := false |}.
Proof. reflexivity. Qed.

Example fetchDataBad_run :
  this (run_timers ["10:00:02"] (fetchDataBad init)) =
    {| user := 1%positive; counter := 0;
       apiData := "Data fetched at 10:00:02"; loading := true |}.
Proof. reflexivity. Qed.

Example replaceUser_run :
  user (this (replaceUser init)) = 2%positive ∧
  store (replaceUser init) =
    {[ 1%positive := {[ "name" := "John Doe" ]};
       2%positive := {[ "name" := "New Name" ]} ]}.
Proof. vm_compute. split; reflexivity. Qed.

Example mutateUser_run :
  user (this (mutateUser "0.25" init)) = 1%positive ∧
  store (mutateUser "0.25" init) = {[ 1%positive := {[ "name" := "New Name0.25" ]} ]}.
Proof. vm_compute. split; reflexivity. Qed.

(* ----------------------------------------------------------------- *)
(** *** Further properties of the user card *)

Lemma with_name_dom v (o : gmap string string) :
  dom o = ({[ "name" ]} : gset string) →
  dom (with_name v o) = ({[ "name" ]} : gset string).
Proof.
  intros Hdom. unfold with_name. rewrite dom_insert_L, Hdom.
  apply (idemp_L (∪)).
Qed.

Lemma step_user_ok a w : user_ok w → user_ok (step a w).
Proof.
  intros (o & Ho & Hdom). destruct a; cbn [step].
  - exists (with_name ("New Name" +:+ random) o). split.
    + unfold mutateUser. cbn [this store]. by rewrite lookup_alter_eq, Ho.
    + by apply with_name_dom.
  - exists (with_name "New Name" o). split.
    + unfold replaceUser. cbn [this store set_user user].
      by rewrite Ho, lookup_insert_eq.
    + by apply with_name_dom.
  - by exists o.
  - by exists o.
  - by exists o.
  - by exists o.
  - exists o. unfold fire. destruct (timers w) as [|[d [|r]] rest]; done.
Qed.

Lemma run_user_ok actions w : user_ok w → user_ok (run actions w).
Proof.
  revert w. induction actions as [|a actions IH]; intros w Hw; [done|].
  apply IH. by apply step_user_ok.
Qed.

Lemma run_task_frame t now c :
  user (run_task t now c) = user c ∧ counter (run_task t now c) = counter c.
Proof. by destruct t. Qed.

Lemma run_task_loading t now c :
  loading (run_task t now c) = if is_obs (0, t) then false else loading c.
Proof. by destruct t. Qed.

(** X10: in every history of the component from its initial state, the
    [user] field refers to a live object, and that object has the property
    [name] and no other. *)
Theorem user_always_live (actions : list Action) :
  ∃ o : gmap string string,
    store (run actions init) !! user (this (run actions init)) = Some o ∧
    dom o = ({[ "name" ]} : gset string).
Proof.
  apply (run_user_ok actions init).
  exists {[ "name" := "John Doe" ]}. split; [done|].
  apply dom_singleton_L.
Qed.

(** X11: [counter] counts the calls of [incrementBad] and [incrementGood]
    together, and nothing else in a history changes it.  The count is
    exact as long as it stays a safe integer, where [counter++] on a
    JavaScript number is. *)
Theorem counter_counts_increments (actions : list Action) w :
  - 2 ^ 53 ≤ counter (this w) →
  counter (this w) + Z.of_nat (length (List.filter is_increment actions)) ≤ 2 ^ 53 →
  counter (this (run actions w)) =
    counter (this w) + Z.of_nat (length (List.filter is_increment actions)).
Proof.
  intros _ _. revert w.
  induction actions as [|a actions IH]; intros w; [cbn; lia|].
  change (run (a :: actions) w) with (run actions (step a w)).
  rewrite IH. cbn [List.filter].
  destruct a; cbn [is_increment step length]; try done.
  - unfold incrementBad. cbn [this counter set_counter]. lia.
  - unfold incrementGood. cbn [this counter set_counter]. lia.
  - unfold fire. destruct (timers w) as [|[d t] rest]; [done|].
    cbn [this]. by rewrite (proj2 (run_task_frame t now (this w))).
Qed.

Lemma counter_counts_increments_witness :
  - 2 ^ 53 ≤ counter (this init) ∧
  counter (this init) +
    Z.of_nat (length (List.filter is_increment
      [IncrementBad; FetchDataBad; IncrementGood; Fire "10:00:02"; ReplaceUser]))
    ≤ 2 ^ 53 ∧
  counter (this (run
      [IncrementBad; FetchDataBad; IncrementGood; Fire "10:00:02"; ReplaceUser] init)) =
    counter (this init) +
    Z.of_nat (length (List.filter is_increment
      [IncrementBad; FetchDataBad; IncrementGood; Fire "10:00:02"; ReplaceUser])).
Proof.
  assert (- 2 ^ 53 ≤ counter (this init)) as Hlo by (cbn; lia).
  assert (counter (this init) +
    Z.of_nat (length (List.filter is_increment
      [IncrementBad; FetchDataBad; IncrementGood; Fire "10:00:02"; ReplaceUser]))
    ≤ 2 ^ 53) as Hhi by (cbn; lia).
  split; [exact Hlo|]. split; [exact Hhi|].
  exact (counter_counts_increments _ init Hlo Hhi).
Defined.

(** X12: the timer callbacks of both fetches leave the user objects, the
    [user] reference and [counter] alone, however many of them fire. *)
Theorem timers_frame (clock : list string) w :
  store (run_timers clock w) = store w ∧
  user (this (run_timers clock w)) = user (this w) ∧
  counter (this (run_timers clock w)) = counter (this w).
Proof.
  revert w. induction clock as [|now clock IH]; intros w; [done|].
  cbn [run_timers]. destruct (IH (fire now w)) as (-> & -> & ->).
  unfold fire. destruct (timers w) as [|[d t] rest]; [done|].
  cbn [this store]. by destruct (run_task_frame t now (this w)) as [-> ->].
Qed.

(** X13: once all pending timers have fired, [loading] is false if one of
    them held a value of [fetchDataWithObservable], and is what it was
    otherwise: the callback of [fetchDataBad] never clears it. *)
Theorem loading_after_timers (clock : list string) w :
  (length (timers w) ≤ length clock)%nat →
  timers (run_timers clock w) = [] ∧
  loading (this (run_timers clock w)) =
    if existsb is_obs (timers w) then false else loading (this w).
Proof.
  revert w. induction clock as [|now clock IH]; intros w Hlen.
  - destruct (timers w) eqn:Hts; [|cbn in Hlen; lia].
    cbn [run_timers]. by rewrite Hts.
  - cbn [run_timers]. unfold fire.
    destruct (timers w) as [|[d t] rest] eqn:Hts.
    + destruct (IH w) as [Hnil Hload]; [rewrite Hts; cbn; lia|].
      rewrite Hts in Hload. done.
    + cbn in Hlen.
      destruct (IH {| this := run_task t now (this w); store := store w;
                      timers := rest |}) as [Hnil Hload]; [cbn; lia|].
      split; [done|]. rewrite Hload. cbn [timers this existsb].
      rewrite run_task_loading. unfold is_obs. cbn [snd].
      destruct t; cbn [orb]; [done|]. by destruct (existsb _ rest).
Qed.

Lemma loading_after_timers_witness :
  (length (timers (fetchDataBad (fetchDataBad init))) ≤ length ["10:00:02"; "10:00:03"])%nat ∧
  timers (run_timers ["10:00:02"; "10:00:03"] (fetchDataBad (fetchDataBad init))) = [] ∧
  loading (this (run_timers ["10:00:02"; "10:00:03"] (fetchDataBad (fetchDataBad init)))) =
    if existsb is_obs (timers (fetchDataBad (fetchDataBad init))) then false
    else loading (this (fetchDataBad (fetchDataBad init))).
Proof.
  assert (length (timers (fetchDataBad (fetchDataBad init)))
            ≤ length ["10:00:02"; "10:00:03"])%nat as Hlen by (cbn; lia).
  split; [exact Hlen|].
  exact (loading_after_timers ["10:00:02"; "10:00:03"]
           (fetchDataBad (fetchDataBad init)) Hlen).
Defined.

(** X14: when fetches overlap, the one whose timer was set last decides
    [apiData]: after all timers have fired, [apiData] is what the last
    callback wrote. *)
Theorem apiData_last_fetch_wins (clock : list string) now w ts d t :
  timers w = ts ++ [(d, t)] →
  length clock = length ts →
  apiData (this (run_timers (clock ++ [now]) w)) =
    match t with
    | BadThen => "Data fetched at " +:+ now
    | ObsNext response =>
        "Data: " +:+ data response +:+ " at " +:+ timestamp response
    end.
Proof.
  revert w ts. induction clock as [|now' clock IH]; intros w ts Hts Hlen.
  - destruct ts; [|discriminate]. cbn [app run_timers]. unfold fire.
    rewrite Hts. cbn [app this]. by destruct t.
  - destruct ts as [|[d' t'] ts]; [discriminate|].
    cbn [app run_timers]. apply (IH _ ts).
    + unfold fire. rewrite Hts. done.
    + cbn in Hlen. lia.
Qed.

Lemma apiData_last_fetch_wins_witness :
  timers (fetchDataBad (fetchDataWithObservable "10:00:00" init)) =
    [(1500, ObsNext {| data := "API Response"; timestamp := "10:00:00" |})]
      ++ [(1500, BadThen)] ∧
  length ["10:00:01"] =
    length [(1500, ObsNext {| data := "API Response"; timestamp := "10:00:00" |})] ∧
  apiData (this (run_timers (["10:00:01"] ++ ["10:00:02"])
                   (fetchDataBad (fetchDataWithObservable "10:00:00" init)))) =
    "Data fetched at 10:00:02".
Proof.
  split; [reflexivity|]. split; [reflexivity|].
  exact (apiData_last_fetch_wins ["10:00:01"] "10:00:02"
           (fetchDataBad (fetchDataWithObservable "10:00:00" init))
           [(1500, ObsNext {| data := "API Response"; timestamp := "10:00:00" |})]
           1500 BadThen eq_refl eq_refl).
Defined.

Lemma with_name_with_name v1 v2 (o : gmap string string) :
  with_name v2 (with_name v1 o) = with_name v2 o.
Proof. unfold with_name. apply insert_insert_eq. Qed.

(** X15: however often [mutateUser] runs, the component keeps the same
    user object and allocates nothing; the object carries the name of the
    last call, and every other object is untouched. *)
Theorem mutateUser_repeated (randoms : list string) random w
    (o : gmap string string) :
  store w !! user (this w) = Some o →
  this (run (MutateUser <$> (randoms ++ [random])) w) = this w ∧
  dom (store (run (MutateUser <$> (randoms ++ [random])) w)) = dom (store w) ∧
  store (run (MutateUser <$> (randoms ++ [random])) w) !! user (this w) =
    Some (with_name ("New Name" +:+ random) o) ∧
  (∀ l, l ≠ user (this w) →
     store (run (MutateUser <$> (randoms ++ [random])) w) !! l = store w !! l).
Proof.
  revert w o. induction randoms as [|r randoms IH]; intros w o Ho.
  - cbn. split; [done|]. split; [apply dom_alter_L|].
    split; [by rewrite lookup_alter_eq, Ho|].
    intros l Hl. by rewrite lookup_alter_ne.
  - change (run (MutateUser <$> ((r :: randoms) ++ [random])) w)
      with (run (MutateUser <$> (randoms ++ [random])) (mutateUser r w)).
    assert (store (mutateUser r w) !! user (this (mutateUser r w)) =
              Some (with_name ("New Name" +:+ r) o)) as Ho'.
    { unfold mutateUser. cbn [this store]. by rewrite lookup_alter_eq, Ho. }
    destruct (IH _ _ Ho') as (Hthis & Hdom & Hname & Hrest).
    split; [done|]. split; [|split].
    + rewrite Hdom. apply dom_alter_L.
    + change (this (mutateUser r w)) with (this w) in Hname.
      by rewrite Hname, with_name_with_name.
    + intros l Hl. rewrite Hrest by done.
      unfold mutateUser. cbn [store this]. by rewrite lookup_alter_ne.
Qed.

Lemma mutateUser_repeated_witness :
  store init !! user (this init) = Some {[ "name" := "John Doe" ]} ∧
  this (run (MutateUser <$> (["0.5"; "0.75"] ++ ["0.25"])) init) = this init ∧
  store (run (MutateUser <$> (["0.5"; "0.75"] ++ ["0.25"])) init) !! user (this init) =
    Some (with_name ("New Name" +:+ "0.25") {[ "name" := "John Doe" ]}).
Proof.
  assert (store init !! user (this init) = Some {[ "name" := "John Doe" ]}) as Ho
    by reflexivity.
  pose proof (mutateUser_repeated ["0.5"; "0.75"] "0.25" init _ Ho)
    as (Hthis & _ & Hname & _).
  split; [exact Ho|]. split; [exact Hthis | exact Hname].
Defined.

(** X16: [replaceUser] cuts the tie to the previous object: a
    [mutateUser] after it writes the new object, and the object that
    [user] referred to before keeps all its properties. *)
Theorem replaceUser_then_mutateUser random w (o : gmap string string) :
  store w !! user (this w) = Some o →
  user (this (mutateUser random (replaceUser w))) ≠ user (this w) ∧
  store (mutateUser random (replaceUser w)) !! user (this w) = Some o ∧
  store (mutateUser random (replaceUser w))
    !! user (this (mutateUser random (replaceUser w))) =
    Some (with_name ("New Name" +:+ random) o).
Proof.
  intros Ho.
  pose proof (is_fresh (dom (store w))) as Hfresh.
  assert (fresh (dom (store w)) ≠ user (this w)) as Hne.
  { intros Heq. apply Hfresh. rewrite Heq. apply elem_of_dom. eauto. }
  unfold mutateUser, replaceUser. cbn [this store set_user user].
  rewrite Ho. cbn [default]. split; [done|]. split.
  - rewrite lookup_alter_ne by done. by rewrite lookup_insert_ne.
  - rewrite lookup_alter_eq, lookup_insert_eq. cbn.
    by rewrite with_name_with_name.
Qed.

Lemma replaceUser_then_mutateUser_witness :
  store init !! user (this init) = Some {[ "name" := "John Doe" ]} ∧
  user (this (mutateUser "0.25" (replaceUser init))) ≠ user (this init) ∧
  store (mutateUser "0.25" (replaceUser init)) !! user (this init) =
    Some {[ "name" := "John Doe" ]} ∧
  store (mutateUser "0.25" (replaceUser init))
    !! user (this (mutateUser "0.25" (replaceUser init))) =
    Some (with_name ("New Name" +:+ "0.25") {[ "name" := "John Doe" ]}).
Proof.
  split; [reflexivity|].
  exact (replaceUser_then_mutateUser "0.25" init _ eq_refl).
Defined.

(** X17: every [replaceUser] moves [user] to a reference never used
    before and adds exactly one object to the store; a second call copies
    the same properties again. *)
Theorem replaceUser_twice w (o : gmap string string) :
  store w !! user (this w) = Some o →
  user (this (replaceUser w)) ≠ user (this w) ∧
  user (this (replaceUser (replaceUser w))) ≠ user (this (replaceUser w)) ∧
  user (this (replaceUser (replaceUser w))) ≠ user (this w) ∧
  store (replaceUser (replaceUser w)) !! user (this (replaceUser (replaceUser w))) =
    store (replaceUser w) !! user (this (replaceUser w)) ∧
  size (store (replaceUser w)) = S (size (store w)) ∧
  size (store (replaceUser (replaceUser w))) = S (S (size (store w))).
Proof.
  intros Ho.
  assert (∀ w' (o' : gmap string string),
            store w' !! user (this w') = Some o' →
            (user (this (replaceUser w')) ∉ dom (store w')) ∧
            store (replaceUser w') !! user (this (replaceUser w')) =
              Some (with_name "New Name" o') ∧
            store (replaceUser w') =
              <[user (this (replaceUser w')) := with_name "New Name" o']> (store w'))
    as Hone.
  { intros w' o' Ho'. unfold replaceUser. cbn [this store set_user user].
    rewrite Ho'. cbn [default]. split; [apply is_fresh|].
    split; [by rewrite lookup_insert_eq | done]. }
  destruct (Hone w o Ho) as (Hf1 & Hl1 & Hs1).
  destruct (Hone (replaceUser w) _ Hl1) as (Hf2 & Hl2 & Hs2).
  assert (user (this w) ∈ dom (store w)) as Hin by (apply elem_of_dom; eauto).
  assert (user (this (replaceUser w)) ∈ dom (store (replaceUser w))) as Hin1
    by (apply elem_of_dom; eauto).
  assert (user (this w) ∈ dom (store (replaceUser w))) as Hin2.
  { rewrite Hs1, dom_insert_L. apply elem_of_union_r, Hin. }
  split; [by intros Heq; rewrite Heq in Hf1|].
  split; [by intros Heq; rewrite Heq in Hf2|].
  split; [by intros Heq; rewrite Heq in Hf2|].
  split; [by rewrite Hl2, Hl1, with_name_with_name|].
  assert (size (store (replaceUser w)) = S (size (store w))) as Hsz1.
  { rewrite Hs1. apply map_size_insert_None. by apply not_elem_of_dom. }
  split; [done|].
  rewrite Hs2, map_size_insert_None by by apply not_elem_of_dom.
  by rewrite Hsz1.
Qed.

Lemma replaceUser_twice_witness :
  store init !! user (this init) = Some {[ "name" := "John Doe" ]} ∧
  user (this (replaceUser init)) ≠ user (this init) ∧
  size (store (replaceUser (replaceUser init))) = S (S (size (store init))).
Proof.
  pose proof (replaceUser_twice init _ (eq_refl : store init !! user (this init)
                = Some {[ "name" := "John Doe" ]})) as (Hne & _ & _ & _ & _ & Hsz).
  split; [reflexivity|]. split; [exact Hne | exact Hsz].
Defined.

(** X18: the piped observable never ends in an error: it passes the
    upstream values on and, when the upstream ends in an error, emits one
    [null] and completes; an upstream error that comes before any value
    leaves [apiData] as it was. *)
Theorem downstream_handles_errors (vs : list ApiResponse) (k : Completion) c :
  (downstream (vs, k) c).2 =
    ((inl <$> vs) ++ (match k with Complete => [] | Error _ => [inr ()] end),
     Complete) ∧
  (∀ e, apiData (downstream ([], Error e) c).1 = apiData c).
Proof.
  split; [|done].
  destruct k as [|e]; unfold downstream, tap, catchError; cbn.
  - by rewrite app_nil_r.
  - done.
Qed.

End UserFacts.
